(** * captum.metrics._utils.batching

    A shallow embedding of [_divide_and_aggregate_metrics]
    (src/captum/metrics/_utils/batching.py) and the properties of its
    batch-size resolution and of its chunked aggregation loop.

    Python integers are unbounded, so they are [Z]; Python's [//] is floor
    division, which is [Z.div], except that a zero divisor raises.  The two
    callbacks [metric_func] and [agg_func] are arbitrary Python callables: they
    are modelled as total functions that read and update a state of their own
    (the "cursor" the metric function keeps between calls).  Every call of a
    callback and every [warnings.warn] is recorded in a log, in program
    order, so that statements about what was called, how often and with which
    argument can be read off a run.  A callback that raises is outside this
    model. *)

From Stdlib Require Import ZArith List Lia Bool.
From Stdlib Require Import Floats Uint63.
Import ListNotations.
Local Open Scope Z_scope.

(** * The function

    ** Python-level values *)

(** The exceptions the function body itself can raise. *)
Inductive exn : Type :=
| ZeroDivisionError   (* [a // 0] *)
| IndexError.         (* [inputs[0]] on an empty tuple *)

(** What a run leaves in the log. *)
Inductive event : Type :=
| Warn (max_examples_per_batch bsz : Z)   (* warnings.warn(... .format(cap, bsz)) *)
| MetricCall (n : Z)                      (* metric_func(n) *)
| AggCall.                                (* agg_func(metrics_sum, metric) *)

(** ** The state and the outcomes of a run

    [World] is whatever state the two callbacks keep between calls. *)
Record state (World : Type) : Type :=
  mkState { world : World; log : list event }.
Arguments mkState {World} world log.
Arguments world {World} s.
Arguments log {World} s.

Inductive outcome (World A : Type) : Type :=
| Returns (a : A) (s : state World)
| Raises (e : exn)
| OutOfFuel.
Arguments Returns {World A} a s.
Arguments Raises {World A} e.
Arguments OutOfFuel {World A}.

Section Batching.

(** [Tensor]: torch tensors; [Device]: torch devices; [World]: whatever state
    the two callbacks keep between calls. *)
Context {Tensor Device World : Type}.

Variable tensor_device : Tensor -> Device.        (* t.device *)
Variable tensor_size0 : Tensor -> Z.              (* t.size(0) *)
Variable torch_zeros : Z -> Device -> Tensor.     (* torch.zeros(n, device=d) *)

Variable metric_func : Z -> World -> Tensor * World.
Variable agg_func : Tensor -> Tensor -> World -> Tensor * World.

(** *** The monad of a run: state, exceptions, fuel *)

Definition M (A : Type) : Type := state World -> outcome World A.

Definition ret {A} (a : A) : M A := fun s => Returns a s.

Definition bind {A B} (m : M A) (f : A -> M B) : M B :=
  fun s => match m s with
           | Returns a s' => f a s'
           | Raises e => Raises e
           | OutOfFuel => OutOfFuel
           end.

Definition raise {A} (e : exn) : M A := fun _ => Raises e.

Definition out_of_fuel {A} : M A := fun _ => OutOfFuel.

Definition emit (e : event) : M unit :=
  fun s => Returns tt (mkState (world s) (log s ++ [e])).

Notation "x <- m ;; k" := (bind m (fun x => k))
  (at level 61, m at next level, right associativity).
Notation "m ;;; k" := (bind m (fun _ => k))
  (at level 61, right associativity).

(** [a // b] *)
Definition floordiv (a b : Z) : M Z :=
  if b =? 0 then raise ZeroDivisionError else ret (a / b).

(** [inputs[0]] *)
Definition first_input (inputs : list Tensor) : M Tensor :=
  match inputs with
  | [] => raise IndexError
  | x :: _ => ret x
  end.

(** [metric_func(n)] *)
Definition call_metric (n : Z) : M Tensor :=
  fun s => let (t, w) := metric_func n (world s) in
           Returns t (mkState w (log s ++ [MetricCall n])).

(** [agg_func(a, b)] *)
Definition call_agg (a b : Tensor) : M Tensor :=
  fun s => let (t, w) := agg_func a b (world s) in
           Returns t (mkState w (log s ++ [AggCall])).

(** [warnings.warn(...)] *)
Definition warnings_warn (max_examples_per_batch bsz : Z) : M unit :=
  emit (Warn max_examples_per_batch bsz).

(** *** The function body *)

(** Line 38: the parenthesised disjunction.  [or] short-circuits, so the
    second division only runs when the first comparison is false. *)
Definition cap_out_of_range (bsz n_samples cap : Z) : M bool :=
  q <- floordiv cap bsz ;;
  if q <? 1 then ret true
  else q' <- floordiv cap bsz ;; ret (n_samples <? q').

(** Lines 37-50: [if max_examples_per_batch is not None and (...): warn].
    [and] short-circuits: nothing is divided when the cap is [None]. *)
Definition check_cap (bsz n_samples : Z)
    (max_examples_per_batch : option Z) : M unit :=
  match max_examples_per_batch with
  | None => ret tt
  | Some cap =>
      c <- cap_out_of_range bsz n_samples cap ;;
      if c then warnings_warn cap bsz else ret tt
  end.

(** Lines 52-56. *)
Definition max_inps_per_batch (bsz n_samples : Z)
    (max_examples_per_batch : option Z) : M Z :=
  match max_examples_per_batch with
  | None => ret n_samples
  | Some cap => q <- floordiv cap bsz ;; ret (Z.min (Z.max q 1) n_samples)
  end.

(** Lines 62-72: one iteration of the loop on the loop variables
    [(current_n_steps, metrics_sum)]. *)
Definition loop_body (n_samples max_inps : Z) (vars : Z * Tensor)
    : M (Z * Tensor) :=
  let (current_n_steps, metrics_sum) := vars in
  let current_n_steps := current_n_steps + max_inps in
  metric <- call_metric
              (if current_n_steps <=? n_samples then max_inps
               else max_inps - (current_n_steps - n_samples)) ;;
  let current_n_steps := Z.min current_n_steps n_samples in
  metrics_sum <- call_agg metrics_sum metric ;;
  ret (current_n_steps, metrics_sum).

(** Lines 61-72: [while current_n_steps < n_samples: body].  The loop is
    not structurally recursive (a width [<= 0] makes it spin), so it takes
    fuel: one unit per iteration. *)
Fixpoint while_loop (fuel : nat) (n_samples max_inps : Z)
    (vars : Z * Tensor) : M (Z * Tensor) :=
  if fst vars <? n_samples then
    match fuel with
    | O => out_of_fuel
    | S fuel' =>
        vars' <- loop_body n_samples max_inps vars ;;
        while_loop fuel' n_samples max_inps vars'
    end
  else ret vars.

(** Lines 8-73. *)
Definition _divide_and_aggregate_metrics (fuel : nat)
    (inputs : list Tensor) (n_samples : Z)
    (max_examples_per_batch : option Z) : M Tensor :=
  x <- first_input inputs ;;
  let device := tensor_device x in
  x' <- first_input inputs ;;
  let bsz := tensor_size0 x' in
  check_cap bsz n_samples max_examples_per_batch ;;;
  max_inps <- max_inps_per_batch bsz n_samples max_examples_per_batch ;;
  let current_n_steps := 0 in
  let metrics_sum := torch_zeros bsz device in
  vars <- while_loop fuel n_samples max_inps (current_n_steps, metrics_sum) ;;
  ret (snd vars).

(** A run from a given callback state and an empty log. *)
Definition run {A} (m : M A) (w : World) : outcome World A :=
  m (mkState w []).

(** [m] evaluates to [a] without raising and without any effect. *)
Definition evaluates_to {A} (m : M A) (a : A) : Prop :=
  forall s, m s = Returns a s.

(** *** The aggregation as a left fold

    One chunk of width [w] as a step on the accumulator and the callbacks'
    state: [metric_func(w)] first, then [agg_func(acc, metric)].  Folding it
    from the left over a list of widths [w_1 .. w_k] is
    [agg_func(... agg_func(agg_func(acc, m_1), m_2) ..., m_k)] with
    [m_i = metric_func(w_i)], the calls made in this order. *)
Definition chunk_step (p : Tensor * World) (w : Z) : Tensor * World :=
  let (acc, s) := p in
  let (metric, s1) := metric_func w s in
  agg_func acc metric s1.

Definition fold_chunks (ws : list Z) (acc : Tensor) (s : World)
    : Tensor * World :=
  fold_left chunk_step ws (acc, s).

End Batching.

(** ** A concrete tensor model: one-dimensional float64 tensors

    The function reads nothing of a tensor but its device and its leading
    size, and builds one tensor, [torch.zeros(bsz, device=device)].  The
    elements are IEEE binary64 numbers, the kernel's primitive floats: this is
    the arithmetic of [torch.add] when [metric_func] returns float64 tensors
    (the float32 zeros of the accumulator are promoted, exactly, on the first
    addition). *)
Module Float64.

Inductive device : Type := cpu | cuda (index : nat).

Record tensor : Type := mkTensor { data : list float; dev : device }.

(** [t.size(0)] *)
Definition size0 (t : tensor) : Z := Z.of_nat (length (data t)).

(** [torch.zeros(n, device=d)] *)
Definition zeros (n : Z) (d : device) : tensor :=
  mkTensor (repeat 0%float (Z.to_nat n)) d.

Fixpoint add_data (a b : list float) : list float :=
  match a, b with
  | x :: a', y :: b' => (x + y)%float :: add_data a' b'
  | _, _ => []
  end.

(** [torch.add(a, b)] on tensors of one shape *)
Definition add (a b : tensor) : tensor :=
  mkTensor (add_data (data a) (data b)) (dev a).

(** [a * k] for a Python integer [0 <= k < 2^63] *)
Definition mul_int (a : tensor) (k : Z) : tensor :=
  mkTensor (map (fun x => (x * PrimFloat.of_uint63 (Uint63.of_Z k))%float) (data a))
    (dev a).

Fixpoint equal_data (a b : list float) : bool :=
  match a, b with
  | [], [] => true
  | x :: a', y :: b' => PrimFloat.eqb x y && equal_data a' b'
  | _, _ => false
  end.

(** [torch.equal(a, b)]: same size and elements equal as numbers *)
Definition equal (a b : tensor) : bool := equal_data (data a) (data b).

(** A metric function that returns the same tensor whatever the width, and
    the default aggregation [torch.add]; neither keeps any state. *)
Definition constant_metric (V : tensor) (n : Z) (s : unit) : tensor * unit :=
  (V, s).

Definition torch_add (a b : tensor) (s : unit) : tensor * unit := (add a b, s).

(** The function on this model. *)
Definition divide_and_aggregate (metric_func : Z -> unit -> tensor * unit)
    (agg_func : tensor -> tensor -> unit -> tensor * unit) :=
  _divide_and_aggregate_metrics dev size0 zeros metric_func agg_func.

(** One tenth, rounded to binary64, as [0.1] reads in Python. *)
Definition tenth : float := 0x1.999999999999ap-4%float.

End Float64.

(** Inputs of the concrete runs below. *)
Module Runs.

Import Float64.

(** A batch of two examples, a batch of three, and a metric of two entries
    that are exact in binary64. *)
Definition x2 : tensor := mkTensor [1%float; 2%float] cpu.
Definition x3 : tensor := mkTensor [1%float; 2%float; 3%float] cpu.
Definition V2 : tensor := mkTensor [0.5%float; 2%float] cpu.
Definition V3 : tensor := mkTensor [1.5%float; 0.25%float; 3%float] cpu.

(** A batch of one example and the metric [[0.1]]. *)
Definition x1 : tensor := mkTensor [1%float] cpu.
Definition V_tenth : tensor := mkTensor [tenth] cpu.

End Runs.

(** * Vocabulary of the statements

    What follows is not code of the function: it is what the properties
    below are stated with. *)

Definition is_warn (e : event) : bool :=
  match e with Warn _ _ => true | _ => false end.

Definition is_metric_call (e : event) : bool :=
  match e with MetricCall _ => true | _ => false end.

Definition is_agg_call (e : event) : bool :=
  match e with AggCall => true | _ => false end.

(** The arguments [metric_func] was called with, in call order. *)
Fixpoint metric_widths (l : list event) : list Z :=
  match l with
  | [] => []
  | MetricCall n :: l' => n :: metric_widths l'
  | _ :: l' => metric_widths l'
  end.

Definition count (p : event -> bool) (l : list event) : nat :=
  length (filter p l).

Definition sumZ (l : list Z) : Z := fold_right Z.add 0 l.

(** [ceil(n / w)] on integers, for a positive [w]. *)
Definition ceil_div (n w : Z) : Z := (n + w - 1) / w.

(** The chunk widths as the specification words them: with
    [k = ceil(n_samples / chunk_width)], [k - 1] full chunks of [chunk_width]
    followed by one chunk of [n_samples - (k - 1) * chunk_width]. *)
Definition chunk_widths (n_samples chunk_width : Z) : list Z :=
  let k := ceil_div n_samples chunk_width in
  repeat chunk_width (Z.to_nat (k - 1)) ++ [n_samples - (k - 1) * chunk_width].

(** The events a sequence of chunks leaves: one metric call, then one
    aggregation call, per chunk. *)
Definition chunk_events (ws : list Z) : list event :=
  flat_map (fun w => [MetricCall w; AggCall]) ws.

(** The log the cap check of lines 37-50 leaves when the division succeeds:
    one warning when the quotient is out of [[1, n_samples]], nothing
    otherwise. *)
Definition warning_events (bsz n_samples : Z)
    (max_examples_per_batch : option Z) : list event :=
  match max_examples_per_batch with
  | None => []
  | Some cap =>
      if (cap / bsz <? 1) || (n_samples <? cap / bsz) then [Warn cap bsz]
      else []
  end.

(** The same outcome with [l] in front of its log. *)
Definition prepend_log {World A : Type} (l : list event)
    (o : outcome World A) : outcome World A :=
  match o with
  | Returns a s => Returns a (mkState (world s) (l ++ log s))
  | Raises e => Raises e
  | OutOfFuel => OutOfFuel
  end.

(** * Properties *)

(** ** Arithmetic of the chunk count *)

(** [ceil_div n w] is the least [k] with [n <= k * w]. *)
Lemma ceil_div_spec (n w : Z) :
  0 < w -> (ceil_div n w - 1) * w < n <= ceil_div n w * w.
Proof.
  intros Hw. unfold ceil_div.
  pose proof (Z.div_mod (n + w - 1) w ltac:(lia)) as Hdm.
  pose proof (Z.mod_pos_bound (n + w - 1) w Hw) as Hmod.
  nia.
Qed.

Lemma ceil_div_unique (n w k : Z) :
  0 < w -> (k - 1) * w < n <= k * w -> ceil_div n w = k.
Proof.
  intros Hw Hk. pose proof (ceil_div_spec n w Hw) as Hc. nia.
Qed.

Lemma ceil_div_pos (n w : Z) : 0 < w -> 1 <= n -> 1 <= ceil_div n w.
Proof.
  intros Hw Hn. pose proof (ceil_div_spec n w Hw) as Hc. nia.
Qed.

Lemma ceil_div_le (n w : Z) : 1 <= w -> 1 <= n -> ceil_div n w <= n.
Proof.
  intros Hw Hn. pose proof (ceil_div_spec n w ltac:(lia)) as Hc. nia.
Qed.

Lemma ceil_div_small (r w : Z) : 1 <= r <= w -> ceil_div r w = 1.
Proof. intros H. apply ceil_div_unique; lia. Qed.

Lemma ceil_div_big (r w : Z) :
  1 <= w < r -> ceil_div r w = ceil_div (r - w) w + 1.
Proof.
  intros H. apply ceil_div_unique; [lia|].
  pose proof (ceil_div_spec (r - w) w ltac:(lia)) as Hc. nia.
Qed.

(** ** The list of chunk widths *)

Lemma chunk_widths_small (r w : Z) : 1 <= r <= w -> chunk_widths r w = [r].
Proof.
  intros H. unfold chunk_widths. rewrite (ceil_div_small r w H).
  simpl. f_equal. lia.
Qed.

Lemma chunk_widths_big (r w : Z) :
  1 <= w < r -> chunk_widths r w = w :: chunk_widths (r - w) w.
Proof.
  intros H. unfold chunk_widths. rewrite (ceil_div_big r w H).
  pose proof (ceil_div_pos (r - w) w ltac:(lia) ltac:(lia)) as Hk.
  set (k := ceil_div (r - w) w) in *.
  replace (Z.to_nat (k + 1 - 1)) with (S (Z.to_nat (k - 1))) by lia.
  simpl. do 2 f_equal. f_equal. lia.
Qed.

Lemma sumZ_app (l1 l2 : list Z) : sumZ (l1 ++ l2) = sumZ l1 + sumZ l2.
Proof. induction l1 as [|x l1 IH]; simpl; [reflexivity | rewrite IH; lia]. Qed.

Lemma sumZ_repeat (x : Z) (m : nat) : sumZ (repeat x m) = Z.of_nat m * x.
Proof.
  induction m as [|m IH]; [reflexivity|].
  change (sumZ (repeat x (S m))) with (x + sumZ (repeat x m)).
  rewrite IH. lia.
Qed.

Lemma chunk_widths_sum (n w : Z) :
  1 <= w -> 1 <= n -> sumZ (chunk_widths n w) = n.
Proof.
  intros Hw Hn. unfold chunk_widths.
  pose proof (ceil_div_pos n w ltac:(lia) Hn) as Hk.
  rewrite sumZ_app, sumZ_repeat. simpl. rewrite Z2Nat.id by lia. lia.
Qed.

Lemma chunk_widths_length (n w : Z) :
  1 <= w -> 1 <= n ->
  Z.of_nat (length (chunk_widths n w)) = ceil_div n w.
Proof.
  intros Hw Hn. unfold chunk_widths.
  pose proof (ceil_div_pos n w ltac:(lia) Hn) as Hk.
  rewrite length_app, repeat_length. simpl. lia.
Qed.

Lemma chunk_widths_bounds (n w : Z) :
  1 <= w -> 1 <= n -> Forall (fun x => 1 <= x <= w) (chunk_widths n w).
Proof.
  intros Hw Hn. unfold chunk_widths.
  pose proof (ceil_div_spec n w ltac:(lia)) as Hc.
  apply Forall_app. split.
  - apply Forall_forall. intros x Hx. apply repeat_spec in Hx. lia.
  - constructor; [lia | constructor].
Qed.

(** ** Reading the log *)

Lemma metric_widths_app (l1 l2 : list event) :
  metric_widths (l1 ++ l2) = metric_widths l1 ++ metric_widths l2.
Proof.
  induction l1 as [|[c b|n|] l1 IH]; simpl; [reflexivity| | |]; rewrite IH; reflexivity.
Qed.

Lemma count_app (p : event -> bool) (l1 l2 : list event) :
  count p (l1 ++ l2) = (count p l1 + count p l2)%nat.
Proof. unfold count. rewrite filter_app, length_app. reflexivity. Qed.

Lemma metric_widths_chunk_events (ws : list Z) :
  metric_widths (chunk_events ws) = ws.
Proof. induction ws as [|w ws IH]; simpl; [reflexivity | rewrite IH; reflexivity]. Qed.

Lemma count_metric_chunk_events (ws : list Z) :
  count is_metric_call (chunk_events ws) = length ws.
Proof.
  unfold count. induction ws as [|w ws IH]; simpl; [reflexivity | rewrite IH; reflexivity].
Qed.

Lemma count_agg_chunk_events (ws : list Z) :
  count is_agg_call (chunk_events ws) = length ws.
Proof.
  unfold count. induction ws as [|w ws IH]; simpl; [reflexivity | rewrite IH; reflexivity].
Qed.

Lemma count_warn_chunk_events (ws : list Z) :
  count is_warn (chunk_events ws) = 0%nat.
Proof.
  unfold count. induction ws as [|w ws IH]; simpl; [reflexivity | exact IH].
Qed.

Section BatchingProperties.

Context {Tensor Device World : Type}.

Variable tensor_device : Tensor -> Device.
Variable tensor_size0 : Tensor -> Z.
Variable torch_zeros : Z -> Device -> Tensor.
Variable metric_func : Z -> World -> Tensor * World.
Variable agg_func : Tensor -> Tensor -> World -> Tensor * World.

Local Abbreviation divide :=
  (_divide_and_aggregate_metrics tensor_device tensor_size0 torch_zeros
     metric_func agg_func).
Local Abbreviation loop := (while_loop metric_func agg_func).
Local Abbreviation body := (loop_body metric_func agg_func).
Local Abbreviation chunks := (fold_chunks metric_func agg_func).

(** ** The loop *)

(** The loop does nothing once the counter has reached [n_samples]. *)
Lemma while_loop_exit fuel n w c (acc : Tensor) (st : state World) :
  n <= c -> loop fuel n w (c, acc) st = Returns (c, acc) st.
Proof.
  intros H. destruct fuel; simpl; destruct (Z.ltb_spec c n); try lia; reflexivity.
Qed.

(** One iteration: the width asked for is [min w (n - c)], and the counter
    moves to [min (c + w) n]. *)
Lemma loop_body_run n w c (acc : Tensor) (st : state World) :
  body n w (c, acc) st =
    let (acc', wd) :=
      chunk_step metric_func agg_func (acc, world st)
        (if c + w <=? n then w else w - (c + w - n)) in
    Returns (Z.min (c + w) n, acc')
      (mkState wd
         (log st ++ [MetricCall (if c + w <=? n then w else w - (c + w - n));
                     AggCall])).
Proof.
  unfold loop_body, bind, call_metric, call_agg, chunk_step, ret. simpl.
  destruct (metric_func _ (world st)) as [m s1]. simpl.
  destruct (agg_func acc m s1) as [a s2]. simpl.
  rewrite <- app_assoc. reflexivity.
Qed.

(** With a width of at least one, the loop started below [n_samples] runs
    through [chunk_widths] of what remains, one unit of fuel per chunk, and
    stops exactly at [n_samples]. *)
Lemma while_loop_run n w :
  1 <= w ->
  forall fuel c (acc : Tensor) (st : state World),
    c < n -> (length (chunk_widths (n - c) w) <= fuel)%nat ->
    loop fuel n w (c, acc) st =
      let ws := chunk_widths (n - c) w in
      let (acc', wd) := chunks ws acc (world st) in
      Returns (n, acc') (mkState wd (log st ++ chunk_events ws)).
Proof.
  intros Hw. induction fuel as [|fuel IH]; intros c acc st Hc Hfuel.
  { unfold chunk_widths in Hfuel. rewrite length_app in Hfuel. simpl in Hfuel. lia. }
  cbn [while_loop fst]. destruct (Z.ltb_spec c n) as [_|]; [|lia].
  unfold bind. rewrite loop_body_run.
  destruct (Z.leb_spec (c + w) n) as [Hle|Hgt].
  - destruct (Z.eq_dec (c + w) n) as [Heq|Hne].
    + rewrite chunk_widths_small by lia.
      replace (n - c) with w by lia. cbn -[chunk_step].
      destruct (chunk_step _ _ _ w) as [acc' wd].
      rewrite Z.min_l by lia. rewrite Heq.
      rewrite while_loop_exit by lia. reflexivity.
    + rewrite (chunk_widths_big (n - c) w) in * by lia.
      unfold fold_chunks. cbn -[chunk_step chunk_widths].
      destruct (chunk_step _ _ _ w) as [acc' wd].
      rewrite Z.min_l by lia.
      replace (n - c - w) with (n - (c + w)) in * by lia.
      rewrite IH by (simpl in Hfuel; lia). cbn -[chunk_step chunk_widths].
      unfold fold_chunks.
      destruct (fold_left _ _ _) as [acc'' wd''].
      rewrite <- app_assoc. reflexivity.
  - rewrite chunk_widths_small by lia.
    replace (w - (c + w - n)) with (n - c) by lia. cbn -[chunk_step].
    destruct (chunk_step _ _ _ (n - c)) as [acc' wd].
    rewrite Z.min_r by lia.
    rewrite while_loop_exit by lia. reflexivity.
Qed.

(** With less fuel than chunks the loop is still running when the fuel is
    gone: the number of iterations is the number of chunks, no less. *)
Lemma while_loop_starved n w :
  1 <= w ->
  forall fuel c (acc : Tensor) (st : state World),
    c < n -> (fuel < length (chunk_widths (n - c) w))%nat ->
    loop fuel n w (c, acc) st = OutOfFuel.
Proof.
  intros Hw. induction fuel as [|fuel IH]; intros c acc st Hc Hfuel.
  { cbn [while_loop fst]. destruct (Z.ltb_spec c n); [reflexivity | lia]. }
  cbn [while_loop fst]. destruct (Z.ltb_spec c n) as [_|]; [|lia].
  unfold bind. rewrite loop_body_run.
  destruct (chunk_step _ _ _ _) as [acc' wd].
  destruct (Z.le_gt_cases (n - c) w) as [Hsmall|Hbig].
  - rewrite chunk_widths_small in Hfuel by lia. simpl in Hfuel. lia.
  - rewrite chunk_widths_big in Hfuel by lia. simpl in Hfuel.
    rewrite Z.min_l by lia. apply IH; [lia|].
    replace (n - (c + w)) with (n - c - w) by lia. lia.
Qed.

(** X11 (why the width is clamped to at least one).  With a width of zero
    or less the loop started below [n_samples] never reaches it: it uses up
    any fuel.  (The function never resolves such a width when
    [n_samples >= 1].) *)
Lemma while_loop_spins n w :
  w <= 0 ->
  forall fuel c (acc : Tensor) (st : state World),
    c < n -> loop fuel n w (c, acc) st = OutOfFuel.
Proof.
  intros Hw. induction fuel as [|fuel IH]; intros c acc st Hc;
    cbn [while_loop fst]; destruct (Z.ltb_spec c n) as [_|]; try lia;
    [reflexivity|].
  unfold bind. rewrite loop_body_run.
  destruct (chunk_step _ _ _ _) as [acc' wd].
  apply IH. lia.
Qed.

(** ** The cap check and the chunk width *)

Lemma floordiv_value a b :
  b <> 0 -> evaluates_to (World := World) (floordiv a b) (a / b).
Proof.
  intros Hb s. unfold floordiv. destruct (Z.eqb_spec b 0); [contradiction | reflexivity].
Qed.

Lemma cap_out_of_range_value bsz n cap :
  bsz <> 0 ->
  evaluates_to (World := World) (cap_out_of_range bsz n cap)
    ((cap / bsz <? 1) || (n <? cap / bsz)).
Proof.
  intros Hb s. unfold cap_out_of_range, bind.
  rewrite (floordiv_value cap bsz Hb s).
  destruct (cap / bsz <? 1); [reflexivity|].
  rewrite (floordiv_value cap bsz Hb s). reflexivity.
Qed.

Lemma check_cap_run bsz n cap (st : state World) :
  (bsz <> 0 \/ cap = None) ->
  check_cap bsz n cap st =
    Returns tt (mkState (world st) (log st ++ warning_events bsz n cap)).
Proof.
  intros H. destruct cap as [c|]; simpl.
  - destruct H as [Hb|]; [|discriminate].
    unfold bind. rewrite (cap_out_of_range_value bsz n c Hb st).
    destruct ((c / bsz <? 1) || (n <? c / bsz)); simpl.
    + reflexivity.
    + rewrite app_nil_r. destruct st; reflexivity.
  - rewrite app_nil_r. destruct st; reflexivity.
Qed.

Lemma max_inps_per_batch_value bsz n cap :
  (bsz <> 0 \/ cap = None) ->
  evaluates_to (World := World) (max_inps_per_batch bsz n cap)
    match cap with
    | None => n
    | Some c => Z.min (Z.max (c / bsz) 1) n
    end.
Proof.
  intros H s. destruct cap as [c|]; simpl; [|reflexivity].
  destruct H as [Hb|]; [|discriminate].
  unfold bind. rewrite (floordiv_value c bsz Hb s). reflexivity.
Qed.

(** A width the code resolves comes from a division that did not raise. *)
Lemma max_inps_per_batch_inv bsz n cap w (w0 : World) :
  evaluates_to (World := World) (max_inps_per_batch bsz n cap) w ->
  (bsz <> 0 \/ cap = None) /\
  w = match cap with
      | None => n
      | Some c => Z.min (Z.max (c / bsz) 1) n
      end.
Proof.
  intros H. specialize (H (mkState w0 [])).
  destruct cap as [c|]; simpl in H.
  - unfold bind, floordiv in H. destruct (Z.eqb_spec bsz 0) as [Hz|Hnz].
    + discriminate H.
    + unfold ret in H. inversion H. auto.
  - unfold ret in H. inversion H. auto.
Qed.

Lemma resolved_width_bounds bsz n cap :
  1 <= n ->
  1 <= match cap with
       | None => n
       | Some c => Z.min (Z.max (c / bsz) 1) n
       end <= n.
Proof. intros Hn. destruct cap; lia. Qed.

(** ** The whole call *)

(** For [n_samples >= 1] and a cap whose division succeeds, the call
    returns the left fold over [chunk_widths], and its log is the warning
    (if any) followed by the calls of the chunks.  It takes one unit of
    fuel per chunk. *)
Lemma divide_run x rest n cap w fuel (w0 : World) :
  evaluates_to (World := World)
    (max_inps_per_batch (tensor_size0 x) n cap) w ->
  1 <= n ->
  (length (chunk_widths n w) <= fuel)%nat ->
  run (divide fuel (x :: rest) n cap) w0 =
    let ws := chunk_widths n w in
    let (acc, wd) :=
      chunks ws (torch_zeros (tensor_size0 x) (tensor_device x)) w0 in
    Returns acc
      (mkState wd (warning_events (tensor_size0 x) n cap ++ chunk_events ws)).
Proof.
  intros Hres Hn Hfuel.
  destruct (max_inps_per_batch_inv _ _ _ _ w0 Hres) as [Hdiv Hw].
  pose proof (resolved_width_bounds (tensor_size0 x) n cap Hn) as Hb.
  rewrite <- Hw in Hb.
  unfold run, _divide_and_aggregate_metrics, bind, first_input, ret.
  rewrite check_cap_run by exact Hdiv. rewrite Hres.
  rewrite while_loop_run by (rewrite ?Z.sub_0_r; lia || assumption).
  rewrite Z.sub_0_r. cbn -[chunk_widths fold_chunks].
  destruct (chunks _ _ _) as [acc wd]. reflexivity.
Qed.

(** With less fuel than chunks the call does not return. *)
Lemma divide_starved x rest n cap w fuel (w0 : World) :
  evaluates_to (World := World)
    (max_inps_per_batch (tensor_size0 x) n cap) w ->
  1 <= n ->
  (fuel < length (chunk_widths n w))%nat ->
  run (divide fuel (x :: rest) n cap) w0 = OutOfFuel.
Proof.
  intros Hres Hn Hfuel.
  destruct (max_inps_per_batch_inv _ _ _ _ w0 Hres) as [Hdiv Hw].
  pose proof (resolved_width_bounds (tensor_size0 x) n cap Hn) as Hb.
  rewrite <- Hw in Hb.
  unfold run, _divide_and_aggregate_metrics, bind, first_input, ret.
  rewrite check_cap_run by exact Hdiv. rewrite Hres.
  rewrite while_loop_starved by (rewrite ?Z.sub_0_r; lia || assumption).
  reflexivity.
Qed.

(** A present cap over an empty batch ([bsz = 0]) raises before anything
    else happens. *)
Lemma divide_zero_bsz x rest n c fuel (w0 : World) :
  tensor_size0 x = 0 ->
  run (divide fuel (x :: rest) n (Some c)) w0 = Raises ZeroDivisionError.
Proof.
  intros Hz. unfold run, _divide_and_aggregate_metrics, bind, first_input, ret.
  simpl. unfold cap_out_of_range, bind, floordiv. rewrite Hz. reflexivity.
Qed.

(** ** The log is write-only

    Nothing in the function reads the log: a run from a state with log [l]
    is the run from the empty log with [l] in front. *)

Lemma loop_body_frame n w vars wd l :
  body n w vars (mkState wd l) = prepend_log l (body n w vars (mkState wd [])).
Proof.
  destruct vars as [c acc]. rewrite !loop_body_run. simpl.
  destruct (metric_func _ wd) as [m s1]. destruct (agg_func acc m s1).
  reflexivity.
Qed.

Lemma while_loop_frame fuel n w :
  forall vars wd l,
    loop fuel n w vars (mkState wd l)
    = prepend_log l (loop fuel n w vars (mkState wd [])).
Proof.
  induction fuel as [|fuel IH]; intros vars wd l; cbn [while_loop];
    destruct (fst vars <? n); try (unfold ret; simpl; rewrite app_nil_r; reflexivity);
    try reflexivity.
  unfold bind. rewrite loop_body_frame.
  destruct (body n w vars (mkState wd [])) as [v [wd' l']| |]; simpl; try reflexivity.
  rewrite (IH v wd' (l ++ l')), (IH v wd' l').
  destruct (loop fuel n w v (mkState wd' [])) as [v'' [wd'' l'']| |]; simpl;
    try reflexivity.
  rewrite app_assoc. reflexivity.
Qed.

(** The call is the cap check followed by the loop on the resolved width;
    the check only adds [warning_events] to the log. *)
Lemma divide_decompose x rest n cap w fuel (w0 : World) :
  evaluates_to (World := World)
    (max_inps_per_batch (tensor_size0 x) n cap) w ->
  run (divide fuel (x :: rest) n cap) w0 =
    prepend_log (warning_events (tensor_size0 x) n cap)
      match run (loop fuel n w
                   (0, torch_zeros (tensor_size0 x) (tensor_device x))) w0 with
      | Returns vars s => Returns (snd vars) s
      | Raises e => Raises e
      | OutOfFuel => OutOfFuel
      end.
Proof.
  intros Hres.
  destruct (max_inps_per_batch_inv _ _ _ _ w0 Hres) as [Hdiv Hw].
  unfold run, _divide_and_aggregate_metrics, bind, first_input, ret.
  rewrite check_cap_run by exact Hdiv. rewrite Hres. simpl.
  rewrite while_loop_frame.
  destruct (loop fuel n w _ (mkState w0 [])) as [v [wd' l']| |]; reflexivity.
Qed.


Lemma chunk_widths_fuel n w fuel :
  1 <= w -> 1 <= n -> (Z.to_nat n <= fuel)%nat ->
  (length (chunk_widths n w) <= fuel)%nat.
Proof.
  intros Hw Hn Hfuel.
  pose proof (chunk_widths_length n w Hw Hn) as Hl.
  pose proof (ceil_div_le n w Hw Hn). lia.
Qed.

Lemma metric_widths_warning_events bsz n cap :
  metric_widths (warning_events bsz n cap) = [].
Proof.
  destruct cap as [c|]; simpl; [|reflexivity].
  destruct ((c / bsz <? 1) || (n <? c / bsz)); reflexivity.
Qed.

Lemma count_warning_events p bsz n cap :
  (forall c b, p (Warn c b) = false) ->
  count p (warning_events bsz n cap) = 0%nat.
Proof.
  intros Hp. destruct cap as [c|]; simpl; [|reflexivity].
  destruct ((c / bsz <? 1) || (n <? c / bsz)); [|reflexivity].
  unfold count. simpl. rewrite Hp. reflexivity.
Qed.

(** ** Coverage and chunk count *)

(** C1 (coverage).  For [n_samples >= 1] and a call whose chunk width
    [max_inps_per_batch] resolves to [w] in [[1, n_samples]], the call
    returns, and the widths passed to [metric_func] over all iterations sum
    to exactly [n_samples]. *)
Theorem coverage_sum_of_widths x rest n cap w fuel (w0 : World) :
  1 <= n ->
  1 <= w <= n ->
  evaluates_to (World := World)
    (max_inps_per_batch (tensor_size0 x) n cap) w ->
  (Z.to_nat n <= fuel)%nat ->
  exists r st,
    run (divide fuel (x :: rest) n cap) w0 = Returns r st /\
    sumZ (metric_widths (log st)) = n.
Proof.
  intros Hn Hw Hres Hfuel.
  rewrite (divide_run x rest n cap w fuel w0 Hres Hn)
    by (apply chunk_widths_fuel; lia).
  cbv zeta. destruct (chunks _ _ _) as [acc wd].
  exists acc. eexists. split; [reflexivity|]. cbn [log].
  rewrite metric_widths_app, metric_widths_warning_events,
    metric_widths_chunk_events.
  apply chunk_widths_sum; lia.
Qed.

(** C2 (chunk count).  Under the same conditions the loop runs exactly
    [ceil(n_samples / w)] iterations: with that much fuel (one unit per
    iteration) the call returns, having called [metric_func] and
    [agg_func] exactly [ceil(n_samples / w)] times each, and with any less
    the loop is still running when the fuel is gone. *)
Theorem iteration_count x rest n cap w (w0 : World) :
  1 <= n ->
  1 <= w <= n ->
  evaluates_to (World := World)
    (max_inps_per_batch (tensor_size0 x) n cap) w ->
  (forall fuel,
      (Z.to_nat (ceil_div n w) <= fuel)%nat ->
      exists r st,
        run (divide fuel (x :: rest) n cap) w0 = Returns r st /\
        Z.of_nat (count is_metric_call (log st)) = ceil_div n w /\
        Z.of_nat (count is_agg_call (log st)) = ceil_div n w) /\
  (forall fuel,
      (fuel < Z.to_nat (ceil_div n w))%nat ->
      run (divide fuel (x :: rest) n cap) w0 = OutOfFuel).
Proof.
  intros Hn Hw Hres.
  pose proof (chunk_widths_length n w ltac:(lia) Hn) as Hlen.
  split; intros fuel Hfuel.
  - rewrite (divide_run x rest n cap w fuel w0 Hres Hn) by lia.
    cbv zeta. destruct (chunks _ _ _) as [acc wd].
    exists acc. eexists. split; [reflexivity|]. cbn [log].
    rewrite !count_app, count_metric_chunk_events, count_agg_chunk_events.
    rewrite !count_warning_events by reflexivity. lia.
  - apply (divide_starved x rest n cap w fuel w0 Hres Hn). lia.
Qed.

(** ** Resolution of the chunk width *)

(** C3 (clamping).  For [bsz >= 1], [n_samples >= 1] and any cap, integer
    or absent, the chunk width is resolved without raising, lies in
    [[1, n_samples]], and is [min(max(cap // bsz, 1), n_samples)] for a
    present cap and [n_samples] for an absent one. *)
Theorem chunk_width_clamped bsz n cap :
  1 <= bsz ->
  1 <= n ->
  exists w,
    evaluates_to (World := World) (max_inps_per_batch bsz n cap) w /\
    1 <= w <= n /\
    w = match cap with
        | Some c => Z.min (Z.max (c / bsz) 1) n
        | None => n
        end.
Proof.
  intros Hb Hn. eexists. split; [|split; [|reflexivity]].
  - apply max_inps_per_batch_value. left. lia.
  - apply resolved_width_bounds. exact Hn.
Qed.

(** ** No cap *)

(** C6 (no-cap shortcut).  For [n_samples >= 1] and no cap, the loop runs
    exactly one iteration: with one unit of fuel or more the call returns
    and its whole log is one call [metric_func(n_samples)] followed by one
    call of [agg_func]; with no fuel it does not return. *)
Theorem no_cap_single_call x rest n (w0 : World) :
  1 <= n ->
  (forall fuel,
      (1 <= fuel)%nat ->
      exists r st,
        run (divide fuel (x :: rest) n None) w0 = Returns r st /\
        log st = [MetricCall n; AggCall]) /\
  run (divide 0 (x :: rest) n None) w0 = OutOfFuel.
Proof.
  intros Hn.
  assert (Hres : evaluates_to (World := World)
                   (max_inps_per_batch (tensor_size0 x) n None) n)
    by (intros s; reflexivity).
  assert (Hws : chunk_widths n n = [n]) by (apply chunk_widths_small; lia).
  split.
  - intros fuel Hfuel.
    rewrite (divide_run x rest n None n fuel w0 Hres Hn)
      by (rewrite Hws; simpl; lia).
    cbv zeta. rewrite Hws. destruct (chunks _ _ _) as [acc wd].
    exists acc. eexists. split; reflexivity.
  - apply (divide_starved x rest n None n 0 w0 Hres Hn).
    rewrite Hws. simpl. lia.
Qed.

(** ** The returned value *)

(** When neither callback keeps state, the fold is the plain left fold of
    [agg_func] over the metrics of the widths. *)
Lemma fold_chunks_pure (mf : Z -> Tensor) (af : Tensor -> Tensor -> Tensor) :
  (forall width s, metric_func width s = (mf width, s)) ->
  (forall a b s, agg_func a b s = (af a b, s)) ->
  forall ws acc s,
    chunks ws acc s = (fold_left (fun a width => af a (mf width)) ws acc, s).
Proof.
  intros Hm Ha. unfold fold_chunks.
  induction ws as [|width ws IH]; intros acc s; simpl; [reflexivity|].
  rewrite Hm, Ha. apply IH.
Qed.

(** C10 (left-nested fold).  For [n_samples >= 1] and a chunk width [w] in
    [[1, n_samples]], with [k = ceil(n_samples / w)]: [metric_func] is
    called with [w_1 .. w_k], where [w_i = w] for [i < k] and
    [w_k = n_samples - (k - 1) * w], every [w_i] lies in [[1, w]], and the
    value returned is the left fold
    [agg_func(... agg_func(agg_func(zeros(bsz), m_1), m_2) ..., m_k)] with
    [m_i = metric_func(w_i)], the callbacks being called in this
    left-to-right order. *)
Theorem result_is_left_fold x rest n cap w fuel (w0 : World) :
  1 <= n ->
  1 <= w <= n ->
  evaluates_to (World := World)
    (max_inps_per_batch (tensor_size0 x) n cap) w ->
  (Z.to_nat n <= fuel)%nat ->
  let k := ceil_div n w in
  let ws := repeat w (Z.to_nat (k - 1)) ++ [n - (k - 1) * w] in
  exists st,
    run (divide fuel (x :: rest) n cap) w0
    = Returns
        (fst (fold_left (chunk_step metric_func agg_func) ws
                (torch_zeros (tensor_size0 x) (tensor_device x), w0)))
        st /\
    world st
    = snd (fold_left (chunk_step metric_func agg_func) ws
             (torch_zeros (tensor_size0 x) (tensor_device x), w0)) /\
    metric_widths (log st) = ws /\
    filter (fun e => negb (is_warn e)) (log st) = chunk_events ws /\
    Z.of_nat (length ws) = k /\
    Forall (fun w_i => 1 <= w_i <= w) ws.
Proof.
  intros Hn Hw Hres Hfuel k ws.
  change ws with (chunk_widths n w).
  rewrite (divide_run x rest n cap w fuel w0 Hres Hn)
    by (apply chunk_widths_fuel; lia).
  cbv zeta. unfold fold_chunks.
  destruct (fold_left _ _ _) as [acc wd].
  eexists. split; [reflexivity|]. cbn [log world fst snd].
  split; [reflexivity|]. split; [|split; [|split]].
  - rewrite metric_widths_app, metric_widths_warning_events,
      metric_widths_chunk_events. reflexivity.
  - rewrite filter_app.
    assert (Hwe : filter (fun e => negb (is_warn e))
                    (warning_events (tensor_size0 x) n cap) = []).
    { destruct cap as [c|]; simpl; [|reflexivity].
      destruct ((c / tensor_size0 x <? 1) || (n <? c / tensor_size0 x));
        reflexivity. }
    rewrite Hwe. simpl.
    clear. generalize (chunk_widths n w) as l.
    induction l as [|a l IH]; simpl; [reflexivity | rewrite IH; reflexivity].
  - apply chunk_widths_length; lia.
  - apply chunk_widths_bounds; lia.
Qed.

(** ** The warning *)

Lemma warning_events_fired bsz n c :
  c / bsz < 1 \/ c / bsz > n ->
  warning_events bsz n (Some c) = [Warn c bsz].
Proof.
  intros H. simpl.
  destruct (Z.ltb_spec (c / bsz) 1), (Z.ltb_spec n (c / bsz)); simpl;
    try reflexivity; lia.
Qed.

Lemma warning_events_silent bsz n cap :
  ~ (exists c, cap = Some c /\ (c / bsz < 1 \/ c / bsz > n)) ->
  warning_events bsz n cap = [].
Proof.
  intros H. destruct cap as [c|]; simpl; [|reflexivity].
  destruct (Z.ltb_spec (c / bsz) 1), (Z.ltb_spec n (c / bsz)); simpl;
    try reflexivity; exfalso; apply H; exists c; split; auto; lia.
Qed.

Lemma filter_not_warn_chunk_events ws :
  filter (fun e => negb (is_warn e)) (chunk_events ws) = chunk_events ws.
Proof.
  induction ws as [|a l IH]; simpl; [reflexivity | rewrite IH; reflexivity].
Qed.

(** C4 (warning trigger).  Whenever the division by [bsz] is defined (or
    there is no cap to divide), the call returns, and its log holds exactly
    one warning if the cap is present with [cap // bsz < 1] or
    [cap // bsz > n_samples], and none in every other case.  The warning
    changes nothing else: the value returned, the callbacks' final state and
    the rest of the log are those of the loop run alone on the resolved
    chunk width. *)
Theorem warning_exactly_once x rest n cap fuel (w0 : World) :
  tensor_size0 x <> 0 \/ cap = None ->
  (Z.to_nat n <= fuel)%nat ->
  exists w vars st' st,
    evaluates_to (World := World)
      (max_inps_per_batch (tensor_size0 x) n cap) w /\
    run (loop fuel n w (0, torch_zeros (tensor_size0 x) (tensor_device x))) w0
    = Returns vars st' /\
    run (divide fuel (x :: rest) n cap) w0 = Returns (snd vars) st /\
    ((exists c, cap = Some c /\
                (c / tensor_size0 x < 1 \/ c / tensor_size0 x > n)) ->
     count is_warn (log st) = 1%nat) /\
    (~ (exists c, cap = Some c /\
                  (c / tensor_size0 x < 1 \/ c / tensor_size0 x > n)) ->
     count is_warn (log st) = 0%nat) /\
    world st = world st' /\
    filter (fun e => negb (is_warn e)) (log st) = log st'.
Proof.
  intros Hdiv Hfuel.
  pose proof (max_inps_per_batch_value (tensor_size0 x) n cap Hdiv) as Hres.
  set (w := match cap with
            | Some c => Z.min (Z.max (c / tensor_size0 x) 1) n
            | None => n
            end) in *.
  assert (Hloop : exists acc' l',
             run (loop fuel n w
                    (0, torch_zeros (tensor_size0 x) (tensor_device x))) w0
             = Returns (Z.max 0 n, fst acc') (mkState (snd acc') l') /\
             count is_warn l' = 0%nat /\
             filter (fun e => negb (is_warn e)) l' = l').
  { unfold run. destruct (Z.le_gt_cases n 0) as [Hn|Hn].
    - rewrite while_loop_exit by lia.
      exists (torch_zeros (tensor_size0 x) (tensor_device x), w0), [].
      repeat split. f_equal. f_equal. lia.
    - pose proof (resolved_width_bounds (tensor_size0 x) n cap ltac:(lia)) as Hb.
      fold w in Hb.
      rewrite while_loop_run; try lia.
      + cbv zeta. rewrite Z.sub_0_r. cbn [world log app].
        exists (chunks (chunk_widths n w)
                  (torch_zeros (tensor_size0 x) (tensor_device x)) w0),
          (chunk_events (chunk_widths n w)).
        destruct (chunks _ _ _) as [acc wd]. cbn [fst snd].
        split; [f_equal; f_equal; lia|].
        split; [apply count_warn_chunk_events
               | apply filter_not_warn_chunk_events].
      + rewrite Z.sub_0_r. apply chunk_widths_fuel; lia. }
  destruct Hloop as ([acc wd] & l' & Hloop & Hcount & Hfilter).
  cbn [fst snd] in Hloop.
  exists w, (Z.max 0 n, acc), (mkState wd l').
  exists (mkState wd (warning_events (tensor_size0 x) n cap ++ l')).
  split; [exact Hres|]. split; [exact Hloop|].
  split; [rewrite (divide_decompose x rest n cap w fuel w0 Hres), Hloop;
          reflexivity|].
  cbn [log world]. rewrite count_app, filter_app, Hcount, Hfilter.
  split; [|split; [|split]].
  - intros (c & -> & Hc). rewrite warning_events_fired by exact Hc. reflexivity.
  - intros Hno. rewrite warning_events_silent by exact Hno. reflexivity.
  - reflexivity.
  - destruct cap as [c|]; simpl; [|reflexivity].
    destruct ((c / tensor_size0 x <? 1) || (n <? c / tensor_size0 x));
      reflexivity.
Qed.

(** C5, as the code has it.  For [bsz >= 1] and [n_samples >= 1] the
    condition of the warning evaluates without raising, and it holds iff
    [cap // bsz < 1 or cap // bsz > n_samples], that is iff [cap < bsz] or
    [cap >= bsz * (n_samples + 1)]: the caps that do not warn are those of
    [[bsz, bsz * n_samples + bsz - 1]]. *)
Theorem warning_iff_cap_outside_range bsz n cap :
  1 <= bsz ->
  1 <= n ->
  exists b,
    evaluates_to (World := World) (cap_out_of_range bsz n cap) b /\
    (b = true <-> cap / bsz < 1 \/ cap / bsz > n) /\
    (b = true <-> cap < bsz \/ cap > bsz * n + bsz - 1).
Proof.
  intros Hb Hn. eexists. split; [apply cap_out_of_range_value; lia|].
  pose proof (Z.div_mod cap bsz ltac:(lia)) as Hdm.
  pose proof (Z.mod_pos_bound cap bsz ltac:(lia)) as Hmod.
  rewrite orb_true_iff, Z.ltb_lt, Z.ltb_lt. split; split; intros H; nia.
Qed.

(** ** Termination of the loop *)

(** C8 (termination).  For [n_samples >= 1] and any width [w >= 1], also
    one above [n_samples], every iteration started below [n_samples]
    moves the counter strictly up and not beyond [n_samples], and the loop
    started at 0 returns after at most [n_samples] iterations with the
    counter equal to [n_samples], where its condition fails. *)
Theorem loop_terminates n w (acc : Tensor) (st : state World) :
  1 <= n ->
  1 <= w ->
  (forall c acc0 st0,
      c < n ->
      exists c' acc' st',
        body n w (c, acc0) st0 = Returns (c', acc') st' /\ c < c' <= n) /\
  exists k : nat,
    (k <= Z.to_nat n)%nat /\
    forall fuel,
      (k <= fuel)%nat ->
      exists acc' st', loop fuel n w (0, acc) st = Returns (n, acc') st'.
Proof.
  intros Hn Hw. split.
  - intros c acc0 st0 Hc. rewrite loop_body_run.
    destruct (chunk_step _ _ _ _) as [acc' wd]. eexists _, _, _.
    split; [reflexivity | lia].
  - exists (length (chunk_widths n w)). split.
    + apply chunk_widths_fuel; [lia | lia | apply Nat.le_refl].
    + intros fuel Hfuel. rewrite while_loop_run; try lia.
      * cbv zeta. destruct (chunks _ _ _) as [acc' wd]. eexists _, _.
        reflexivity.
      * rewrite Z.sub_0_r. exact Hfuel.
Qed.

(** ** Non-positive [n_samples] *)

(** C9.  For [n_samples <= 0] (and a division by [bsz] that is defined, or
    no cap) the call returns [torch.zeros(bsz)] whatever the fuel, also
    with none: the loop body never runs, neither callback is called and
    their state is untouched. *)
Theorem nonpositive_n_samples_returns_zeros x rest n cap fuel (w0 : World) :
  n <= 0 ->
  tensor_size0 x <> 0 \/ cap = None ->
  exists st,
    run (divide fuel (x :: rest) n cap) w0
    = Returns (torch_zeros (tensor_size0 x) (tensor_device x)) st /\
    world st = w0 /\
    count is_metric_call (log st) = 0%nat /\
    count is_agg_call (log st) = 0%nat.
Proof.
  intros Hn Hdiv.
  pose proof (max_inps_per_batch_value (tensor_size0 x) n cap Hdiv) as Hres.
  rewrite (divide_decompose x rest n cap _ fuel w0 Hres).
  unfold run. rewrite while_loop_exit by lia. cbn [prepend_log snd log world].
  eexists. split; [reflexivity|]. cbn [log world]. rewrite app_nil_r.
  split; [reflexivity|].
  split; apply count_warning_events; reflexivity.
Qed.

(** ** A constant metric under the default aggregation *)

(** With a metric that is always [V] and an aggregation that is [add], the
    fold adds [V] once per chunk. *)
Lemma fold_chunks_constant (add : Tensor -> Tensor -> Tensor) (V : Tensor) :
  (forall a b s, fst (agg_func a b s) = add a b) ->
  (forall width s, fst (metric_func width s) = V) ->
  forall ws acc s,
    fst (chunks ws acc s) = Nat.iter (length ws) (fun a => add a V) acc.
Proof.
  intros Ha Hm. unfold fold_chunks.
  induction ws as [|width ws IH]; intros acc s; [reflexivity|].
  cbn [fold_left length]. rewrite Nat.iter_succ_r.
  unfold chunk_step at 2.
  pose proof (Hm width s) as Hm'. destruct (metric_func width s) as [m s1].
  pose proof (Ha acc m s1) as Ha'. destruct (agg_func acc m s1) as [a s2].
  simpl in Hm', Ha'. subst m a. apply IH.
Qed.

(** Repeated addition is multiplication as long as every addition on the
    way is exact. *)
Lemma iter_add_exact (add : Tensor -> Tensor -> Tensor)
    (scale : Tensor -> Z -> Tensor) (V zero : Tensor) (k : Z) :
  add zero V = scale V 1 ->
  (forall i, 1 <= i < k -> add (scale V i) V = scale V (i + 1)) ->
  forall j : nat,
    1 <= Z.of_nat j <= k ->
    Nat.iter j (fun a => add a V) zero = scale V (Z.of_nat j).
Proof.
  intros H1 Hstep. induction j as [|j IH]; intros Hj; [lia|].
  rewrite Nat.iter_succ. destruct j as [|j].
  - exact H1.
  - rewrite IH by lia. rewrite Hstep by lia. f_equal. lia.
Qed.

(** C7, as the code has it.  With an aggregation that is elementwise [add]
    and a metric that is [V] whatever the width, the value returned is [V]
    added [k = ceil(n_samples / w)] times to [zeros(bsz)], from the left:
    [(((zeros + V) + V) + ...) + V].  This is [V * k] whenever every one of
    these additions is exact ([zeros + V = V * 1] and
    [V * i + V = V * (i + 1)] for [1 <= i < k]). *)
Theorem constant_metric_repeated_sum (add : Tensor -> Tensor -> Tensor)
    (scale : Tensor -> Z -> Tensor) (V : Tensor)
    x rest n cap w fuel (w0 : World) :
  (forall a b s, fst (agg_func a b s) = add a b) ->
  (forall width s, fst (metric_func width s) = V) ->
  1 <= n ->
  1 <= w <= n ->
  evaluates_to (World := World)
    (max_inps_per_batch (tensor_size0 x) n cap) w ->
  (Z.to_nat n <= fuel)%nat ->
  exists r st,
    run (divide fuel (x :: rest) n cap) w0 = Returns r st /\
    r = Nat.iter (Z.to_nat (ceil_div n w)) (fun a => add a V)
          (torch_zeros (tensor_size0 x) (tensor_device x)) /\
    (add (torch_zeros (tensor_size0 x) (tensor_device x)) V = scale V 1 ->
     (forall i, 1 <= i < ceil_div n w ->
                add (scale V i) V = scale V (i + 1)) ->
     r = scale V (ceil_div n w)).
Proof.
  intros Ha Hm Hn Hw Hres Hfuel.
  pose proof (chunk_widths_length n w ltac:(lia) Hn) as Hlen.
  pose proof (ceil_div_pos n w ltac:(lia) Hn) as Hk.
  rewrite (divide_run x rest n cap w fuel w0 Hres Hn)
    by (apply chunk_widths_fuel; lia).
  cbv zeta.
  pose proof (fold_chunks_constant add V Ha Hm (chunk_widths n w)
                (torch_zeros (tensor_size0 x) (tensor_device x)) w0) as Hfold.
  destruct (chunks _ _ _) as [acc wd]. cbn [fst] in Hfold.
  exists acc. eexists. split; [reflexivity|].
  replace (Z.to_nat (ceil_div n w)) with (length (chunk_widths n w)) by lia.
  split; [exact Hfold|].
  intros H1 Hstep. rewrite Hfold.
  rewrite (iter_add_exact add scale V _ (ceil_div n w) H1 Hstep) by lia.
  f_equal. lia.
Qed.

End BatchingProperties.


(** * Concrete runs on float64 tensors *)

(** The three scenarios of the specification, run in full. *)

(** [bsz = 2], [n_samples = 10], [cap = 5]: no warning, widths 2, 2, 2, 2, 2. *)
Example scenario_cap_in_range :
  run (Float64.divide_and_aggregate (Float64.constant_metric Runs.V2)
         Float64.torch_add 5 [Runs.x2] 10 (Some 5)) tt
  = Returns (Float64.mkTensor [2.5%float; 10%float] Float64.cpu)
      (mkState tt (chunk_events [2; 2; 2; 2; 2])).
Proof. vm_compute. reflexivity. Qed.

(** [bsz = 2], [n_samples = 10], [cap = 1]: the quotient is 0, the warning
    fires, and ten chunks of width 1 follow. *)
Example scenario_cap_too_small :
  run (Float64.divide_and_aggregate (Float64.constant_metric Runs.V2)
         Float64.torch_add 10 [Runs.x2] 10 (Some 1)) tt
  = Returns (Float64.mkTensor [5%float; 20%float] Float64.cpu)
      (mkState tt (Warn 1 2 :: chunk_events (repeat 1 10))).
Proof. vm_compute. reflexivity. Qed.

(** [bsz = 3], [n_samples = 4], [cap = 20]: the quotient is 6, the warning
    fires, and one chunk of width 4 follows. *)
Example scenario_cap_too_large :
  run (Float64.divide_and_aggregate (Float64.constant_metric Runs.V3)
         Float64.torch_add 1 [Runs.x3] 4 (Some 20)) tt
  = Returns Runs.V3 (mkState tt [Warn 20 3; MetricCall 4; AggCall]).
Proof. vm_compute. reflexivity. Qed.

(** An empty tuple of inputs: [inputs[0]] raises. *)
Example empty_inputs_raise :
  run (Float64.divide_and_aggregate (Float64.constant_metric Runs.V2)
         Float64.torch_add 1 [] 4 None) tt
  = Raises IndexError.
Proof. reflexivity. Qed.

(** [bsz = 2], [n_samples = 3], [cap = 2]: three chunks of width 1; every
    sum of [V2 = [0.5, 2.0]] is exact, and the result is [V2 * 3]. *)
Example constant_metric_exact_run :
  Float64.add (Float64.zeros 2 Float64.cpu) Runs.V2 = Float64.mul_int Runs.V2 1 /\
  Float64.add (Float64.mul_int Runs.V2 1) Runs.V2 = Float64.mul_int Runs.V2 2 /\
  Float64.add (Float64.mul_int Runs.V2 2) Runs.V2 = Float64.mul_int Runs.V2 3 /\
  run (Float64.divide_and_aggregate (Float64.constant_metric Runs.V2)
         Float64.torch_add 3 [Runs.x2] 3 (Some 2)) tt
  = Returns (Float64.mul_int Runs.V2 3)
      (mkState tt (chunk_events [1; 1; 1])).
Proof. repeat split; vm_compute; reflexivity. Qed.

(** The witnesses of the theorems above. *)

(** [bsz = 2], [n_samples = 10], [cap = 5]: width 2, five chunks. *)
Lemma coverage_sum_of_widths_witness :
  exists r st,
    run (Float64.divide_and_aggregate (Float64.constant_metric Runs.V2)
           Float64.torch_add 10 [Runs.x2] 10 (Some 5)) tt
    = Returns r st /\
    sumZ (metric_widths (log st)) = 10.
Proof.
  apply (coverage_sum_of_widths Float64.dev Float64.size0 Float64.zeros
           (Float64.constant_metric Runs.V2) Float64.torch_add
           Runs.x2 [] 10 (Some 5) 2 10%nat tt);
    [lia | lia | intros s; reflexivity | simpl; lia].
Defined.

(** [bsz = 2], [n_samples = 10], [cap = 7]: width 3, four chunks. *)
Lemma iteration_count_witness :
  (forall fuel,
      (Z.to_nat (ceil_div 10 3) <= fuel)%nat ->
      exists r st,
        run (Float64.divide_and_aggregate (Float64.constant_metric Runs.V2)
               Float64.torch_add fuel [Runs.x2] 10 (Some 7)) tt
        = Returns r st /\
        Z.of_nat (count is_metric_call (log st)) = ceil_div 10 3 /\
        Z.of_nat (count is_agg_call (log st)) = ceil_div 10 3) /\
  (forall fuel,
      (fuel < Z.to_nat (ceil_div 10 3))%nat ->
      run (Float64.divide_and_aggregate (Float64.constant_metric Runs.V2)
             Float64.torch_add fuel [Runs.x2] 10 (Some 7)) tt
      = OutOfFuel).
Proof.
  apply (iteration_count Float64.dev Float64.size0 Float64.zeros
           (Float64.constant_metric Runs.V2) Float64.torch_add
           Runs.x2 [] 10 (Some 7) 3 tt);
    [lia | lia | intros s; reflexivity].
Defined.

(** [bsz = 3], [n_samples = 4], [cap = 20]: the quotient 6 is clamped to 4. *)
Lemma chunk_width_clamped_witness :
  exists w,
    evaluates_to (World := unit) (max_inps_per_batch 3 4 (Some 20)) w /\
    1 <= w <= 4 /\
    w = Z.min (Z.max (20 / 3) 1) 4.
Proof.
  apply (chunk_width_clamped (World := unit) 3 4 (Some 20)); lia.
Defined.

(** [bsz = 3], [n_samples = 4], [cap = 20]: one warning, then one chunk. *)
Lemma warning_exactly_once_witness :
  exists w vars st' st,
    evaluates_to (World := unit)
      (max_inps_per_batch (Float64.size0 Runs.x3) 4 (Some 20)) w /\
    run (while_loop (Float64.constant_metric Runs.V2) Float64.torch_add 4 4 w
           (0, Float64.zeros (Float64.size0 Runs.x3) (Float64.dev Runs.x3))) tt
    = Returns vars st' /\
    run (Float64.divide_and_aggregate (Float64.constant_metric Runs.V2)
           Float64.torch_add 4 [Runs.x3] 4 (Some 20)) tt
    = Returns (snd vars) st /\
    ((exists c, Some 20 = Some c /\
                (c / Float64.size0 Runs.x3 < 1 \/ c / Float64.size0 Runs.x3 > 4)) ->
     count is_warn (log st) = 1%nat) /\
    (~ (exists c, Some 20 = Some c /\
                  (c / Float64.size0 Runs.x3 < 1 \/ c / Float64.size0 Runs.x3 > 4)) ->
     count is_warn (log st) = 0%nat) /\
    world st = world st' /\
    filter (fun e => negb (is_warn e)) (log st) = log st'.
Proof.
  apply (warning_exactly_once Float64.dev Float64.size0 Float64.zeros
           (Float64.constant_metric Runs.V2) Float64.torch_add
           Runs.x3 [] 4 (Some 20) 4%nat tt);
    [left; vm_compute; discriminate | simpl; lia].
Defined.

(** [bsz = 2], [n_samples = 10], [cap = 21]: no warning. *)
Lemma warning_iff_cap_outside_range_witness :
  exists b,
    evaluates_to (World := unit) (cap_out_of_range 2 10 21) b /\
    (b = true <-> 21 / 2 < 1 \/ 21 / 2 > 10) /\
    (b = true <-> 21 < 2 \/ 21 > 2 * 10 + 2 - 1).
Proof.
  apply (warning_iff_cap_outside_range (World := unit) 2 10 21); lia.
Defined.

(** [n_samples = 10], no cap. *)
Lemma no_cap_single_call_witness :
  (forall fuel,
      (1 <= fuel)%nat ->
      exists r st,
        run (Float64.divide_and_aggregate (Float64.constant_metric Runs.V2)
               Float64.torch_add fuel [Runs.x2] 10 None) tt
        = Returns r st /\
        log st = [MetricCall 10; AggCall]) /\
  run (Float64.divide_and_aggregate (Float64.constant_metric Runs.V2)
         Float64.torch_add 0 [Runs.x2] 10 None) tt
  = OutOfFuel.
Proof.
  apply (no_cap_single_call Float64.dev Float64.size0 Float64.zeros
           (Float64.constant_metric Runs.V2) Float64.torch_add
           Runs.x2 [] 10 tt); lia.
Defined.

(** [bsz = 2], [n_samples = 3], [cap = 2]: width 1, three chunks; every sum
    of [V2] is exact. *)
Lemma constant_metric_repeated_sum_witness :
  exists r st,
    run (Float64.divide_and_aggregate (Float64.constant_metric Runs.V2)
           Float64.torch_add 3 [Runs.x2] 3 (Some 2)) tt
    = Returns r st /\
    r = Nat.iter (Z.to_nat (ceil_div 3 1)) (fun a => Float64.add a Runs.V2)
          (Float64.zeros (Float64.size0 Runs.x2) (Float64.dev Runs.x2)) /\
    (Float64.add (Float64.zeros (Float64.size0 Runs.x2) (Float64.dev Runs.x2))
       Runs.V2
     = Float64.mul_int Runs.V2 1 ->
     (forall i, 1 <= i < ceil_div 3 1 ->
                Float64.add (Float64.mul_int Runs.V2 i) Runs.V2
                = Float64.mul_int Runs.V2 (i + 1)) ->
     r = Float64.mul_int Runs.V2 (ceil_div 3 1)).
Proof.
  apply (constant_metric_repeated_sum Float64.dev Float64.size0 Float64.zeros
           (Float64.constant_metric Runs.V2) Float64.torch_add
           Float64.add Float64.mul_int Runs.V2
           Runs.x2 [] 3 (Some 2) 1 3%nat tt);
    [ intros a b s; reflexivity
    | intros width s; reflexivity
    | lia
    | lia
    | intros s; reflexivity
    | simpl; lia ].
Defined.

(** A width of 6 against [n_samples = 4]: one iteration, which stops at 4. *)
Lemma loop_terminates_witness :
  (forall c acc0 st0,
      c < 4 ->
      exists c' acc' st',
        loop_body (Float64.constant_metric Runs.V2) Float64.torch_add 4 6
          (c, acc0) st0
        = Returns (c', acc') st' /\
        c < c' <= 4) /\
  exists k : nat,
    (k <= Z.to_nat 4)%nat /\
    forall fuel,
      (k <= fuel)%nat ->
      exists acc' st',
        while_loop (Float64.constant_metric Runs.V2) Float64.torch_add fuel 4 6
          (0, Float64.zeros 2 Float64.cpu) (mkState tt [])
        = Returns (4, acc') st'.
Proof.
  apply (loop_terminates (Float64.constant_metric Runs.V2) Float64.torch_add
           4 6 (Float64.zeros 2 Float64.cpu) (mkState tt [])); lia.
Defined.

(** [bsz = 2], [n_samples = 0], [cap = 5], no fuel at all. *)
Lemma nonpositive_n_samples_returns_zeros_witness :
  exists st,
    run (Float64.divide_and_aggregate (Float64.constant_metric Runs.V2)
           Float64.torch_add 0 [Runs.x2] 0 (Some 5)) tt
    = Returns (Float64.zeros (Float64.size0 Runs.x2) (Float64.dev Runs.x2)) st /\
    world st = tt /\
    count is_metric_call (log st) = 0%nat /\
    count is_agg_call (log st) = 0%nat.
Proof.
  apply (nonpositive_n_samples_returns_zeros Float64.dev Float64.size0
           Float64.zeros (Float64.constant_metric Runs.V2) Float64.torch_add
           Runs.x2 [] 0 (Some 5) 0%nat tt);
    [lia | left; vm_compute; discriminate].
Defined.

(** [bsz = 2], [n_samples = 10], [cap = 7]: widths 3, 3, 3, 1. *)
Lemma result_is_left_fold_witness :
  let k := ceil_div 10 3 in
  let ws := repeat 3 (Z.to_nat (k - 1)) ++ [10 - (k - 1) * 3] in
  exists st,
    run (Float64.divide_and_aggregate (Float64.constant_metric Runs.V2)
           Float64.torch_add 10 [Runs.x2] 10 (Some 7)) tt
    = Returns
        (fst (fold_left
                (chunk_step (Float64.constant_metric Runs.V2) Float64.torch_add)
                ws
                (Float64.zeros (Float64.size0 Runs.x2) (Float64.dev Runs.x2), tt)))
        st /\
    world st
    = snd (fold_left
             (chunk_step (Float64.constant_metric Runs.V2) Float64.torch_add)
             ws
             (Float64.zeros (Float64.size0 Runs.x2) (Float64.dev Runs.x2), tt)) /\
    metric_widths (log st) = ws /\
    filter (fun e => negb (is_warn e)) (log st) = chunk_events ws /\
    Z.of_nat (length ws) = k /\
    Forall (fun w_i => 1 <= w_i <= 3) ws.
Proof.
  apply (result_is_left_fold Float64.dev Float64.size0 Float64.zeros
           (Float64.constant_metric Runs.V2) Float64.torch_add
           Runs.x2 [] 10 (Some 7) 3 10%nat tt);
    [lia | lia | intros s; reflexivity | simpl; lia].
Defined.

(** * Where the specification and the code part *)

(** C5, as stated, fails at [bsz = 2], [n_samples = 10], [cap = 21]: the
    cap is above [bsz * n_samples = 20], yet [21 // 2 = 10] is not above
    [n_samples], so the condition of the warning is false. *)
Lemma warning_range_counterexample :
  evaluates_to (World := unit) (cap_out_of_range 2 10 21) false /\
  ~ ((21 / 2 < 1 \/ 21 / 2 > 10) <-> (21 < 2 \/ 21 > 2 * 10)).
Proof.
  split.
  - intros s. reflexivity.
  - intros [_ H]. change (21 / 2) with 10 in H. lia.
Qed.

(** C7, as stated, fails on float64 tensors at [bsz = 1], [n_samples = 6],
    [cap = 1] and [V = [0.1]]: the width is 1, the loop runs
    [ceil(6 / 1) = 6] times, and six additions of 0.1 give
    0.6 = 0x1.3333333333333p-1, whereas [0.1 * 6] is
    0.6000000000000001 = 0x1.3333333333334p-1. *)
Lemma constant_metric_float_counterexample :
  run (Float64.divide_and_aggregate (Float64.constant_metric Runs.V_tenth)
         Float64.torch_add 6 [Runs.x1] 6 (Some 1)) tt
  = Returns (Float64.mkTensor [0x1.3333333333333p-1%float] Float64.cpu)
      (mkState tt (chunk_events [1; 1; 1; 1; 1; 1])) /\
  ceil_div 6 1 = 6 /\
  Float64.mul_int Runs.V_tenth (ceil_div 6 1)
  = Float64.mkTensor [0x1.3333333333334p-1%float] Float64.cpu /\
  Float64.equal
    (Float64.mkTensor [0x1.3333333333333p-1%float] Float64.cpu)
    (Float64.mul_int Runs.V_tenth (ceil_div 6 1))
  = false.
Proof. repeat split; vm_compute; reflexivity. Qed.

(** * Further properties of the call

    Error behaviour, the meaning of the cap, and the loop invariant. *)

Section BatchingCoverage.

Context {Tensor Device World : Type}.

Variable tensor_device : Tensor -> Device.
Variable tensor_size0 : Tensor -> Z.
Variable torch_zeros : Z -> Device -> Tensor.
Variable metric_func : Z -> World -> Tensor * World.
Variable agg_func : Tensor -> Tensor -> World -> Tensor * World.

Local Abbreviation divide :=
  (_divide_and_aggregate_metrics tensor_device tensor_size0 torch_zeros
     metric_func agg_func).
Local Abbreviation loop := (while_loop metric_func agg_func).
Local Abbreviation chunks := (fold_chunks metric_func agg_func).
Local Abbreviation step := (chunk_step metric_func agg_func).

(** The width the code resolves, as a value. *)
Local Abbreviation width_of bsz n cap :=
  (match cap with
   | Some c => Z.min (Z.max (c / bsz) 1) n
   | None => n%Z
   end).

(** The run of a call with [n_samples >= 1] whose division is defined, with
    the resolved width written out. *)
Lemma call_run x rest n cap fuel (w0 : World) :
  tensor_size0 x <> 0 \/ cap = None ->
  1 <= n ->
  (Z.to_nat n <= fuel)%nat ->
  run (divide fuel (x :: rest) n cap) w0 =
    let ws := chunk_widths n (width_of (tensor_size0 x) n cap) in
    let (acc, wd) :=
      chunks ws (torch_zeros (tensor_size0 x) (tensor_device x)) w0 in
    Returns acc
      (mkState wd (warning_events (tensor_size0 x) n cap ++ chunk_events ws)).
Proof.
  intros Hdiv Hn Hfuel.
  pose proof (resolved_width_bounds (tensor_size0 x) n cap Hn) as Hb.
  apply divide_run; [apply max_inps_per_batch_value; exact Hdiv | exact Hn |].
  apply chunk_widths_fuel; lia.
Qed.

(** ** Errors *)


(** ** What the cap means *)

(** X2 (the cap is respected).  For [bsz >= 1], [n_samples >= 1] and a cap
    of at least [bsz], every call of [metric_func] is asked for a width
    [w_i >= 1] with [w_i * bsz <= cap]: no call handles more than
    [max_examples_per_batch] examples. *)
Theorem cap_respected x rest n c fuel (w0 : World) :
  1 <= tensor_size0 x ->
  1 <= n ->
  tensor_size0 x <= c ->
  (Z.to_nat n <= fuel)%nat ->
  exists r st,
    run (divide fuel (x :: rest) n (Some c)) w0 = Returns r st /\
    Forall (fun w_i => 1 <= w_i /\ w_i * tensor_size0 x <= c)
      (metric_widths (log st)).
Proof.
  intros Hb Hn Hc Hfuel.
  rewrite call_run by (auto; lia). cbv zeta.
  destruct (chunks _ _ _) as [acc wd]. eexists _, _. split; [reflexivity|].
  cbn [log]. rewrite metric_widths_app, metric_widths_warning_events,
    metric_widths_chunk_events. cbn [app].
  set (bsz := tensor_size0 x) in *.
  pose proof (Z.div_mod c bsz ltac:(lia)) as Hdm.
  pose proof (Z.mod_pos_bound c bsz ltac:(lia)) as Hmod.
  assert (Hq : 1 <= c / bsz) by nia.
  eapply Forall_impl; [|apply chunk_widths_bounds; lia].
  cbv beta. intros a Ha. split; [lia|]. nia.
Qed.

(** X3 (a cap below the batch size).  For [bsz >= 1], [n_samples >= 1] and a
    cap below [bsz] (zero and negative caps included) the call warns once
    and then handles one sample per example at a time: [n_samples] calls of
    [metric_func(1)], each followed by [agg_func]. *)
Theorem cap_below_batch_size x rest n c fuel (w0 : World) :
  1 <= tensor_size0 x ->
  1 <= n ->
  c < tensor_size0 x ->
  (Z.to_nat n <= fuel)%nat ->
  exists r st,
    run (divide fuel (x :: rest) n (Some c)) w0 = Returns r st /\
    log st = Warn c (tensor_size0 x) :: chunk_events (repeat 1 (Z.to_nat n)).
Proof.
  intros Hb Hn Hc Hfuel.
  rewrite call_run by (auto; lia). cbv zeta.
  destruct (chunks _ _ _) as [acc wd]. eexists _, _. split; [reflexivity|].
  cbn [log].
  set (bsz := tensor_size0 x) in *.
  assert (Hq : c / bsz < 1) by (apply Z.div_lt_upper_bound; lia).
  rewrite Z.max_r, Z.min_l by lia.
  cbn [warning_events]. destruct (Z.ltb_spec (c / bsz) 1) as [_|]; [|lia].
  cbn [orb app]. do 2 f_equal.
  unfold chunk_widths.
  assert (Hk : ceil_div n 1 = n) by (apply ceil_div_unique; lia).
  rewrite Hk. replace (n - (n - 1) * 1) with 1 by lia.
  rewrite <- repeat_cons.
  replace (Z.to_nat n) with (S (Z.to_nat (n - 1))) by lia. reflexivity.
Qed.

(** X4 (a cap that covers everything).  For [bsz >= 1], [n_samples >= 1] and
    a cap of at least [bsz * n_samples] the call makes the single call
    [metric_func(n_samples)] and returns the same value, with the callbacks
    in the same state, as the call with no cap. *)
Theorem cap_covering_all_is_single_call x rest n c fuel (w0 : World) :
  1 <= tensor_size0 x ->
  1 <= n ->
  tensor_size0 x * n <= c ->
  (Z.to_nat n <= fuel)%nat ->
  exists r st st',
    run (divide fuel (x :: rest) n (Some c)) w0 = Returns r st /\
    run (divide fuel (x :: rest) n None) w0 = Returns r st' /\
    world st = world st' /\
    metric_widths (log st) = [n].
Proof.
  intros Hb Hn Hc Hfuel.
  rewrite !call_run by (auto; lia). cbv zeta.
  set (bsz := tensor_size0 x) in *.
  assert (Hq : n <= c / bsz) by (apply Z.div_le_lower_bound; lia).
  rewrite Z.max_l, Z.min_r by lia.
  destruct (chunks _ _ _) as [acc wd]. eexists _, _, _.
  split; [reflexivity|]. split; [reflexivity|]. split; [reflexivity|].
  cbn [log]. rewrite metric_widths_app, metric_widths_warning_events,
    metric_widths_chunk_events.
  apply chunk_widths_small. lia.
Qed.

(** X5 (the width fills the cap).  For [bsz >= 1], [n_samples >= 1] and a cap
    of at least [bsz], the resolved width [w] is the largest that fits:
    [w * bsz <= cap], and either [w = n_samples] or one more sample per
    example would exceed the cap. *)
Theorem chunk_width_fills_cap bsz n c :
  1 <= bsz ->
  1 <= n ->
  bsz <= c ->
  exists w,
    evaluates_to (World := World) (max_inps_per_batch bsz n (Some c)) w /\
    w * bsz <= c /\
    (w = n \/ c < (w + 1) * bsz).
Proof.
  intros Hb Hn Hc. eexists. split.
  - apply (max_inps_per_batch_value bsz n (Some c)). left. lia.
  - pose proof (Z.div_mod c bsz ltac:(lia)) as Hdm.
    pose proof (Z.mod_pos_bound c bsz ltac:(lia)) as Hmod.
    assert (Hq : 1 <= c / bsz) by nia.
    rewrite Z.max_l by lia.
    destruct (Z.le_gt_cases (c / bsz) n) as [Hle|Hgt].
    + rewrite Z.min_l by lia. split; [nia | right; nia].
    + rewrite Z.min_r by lia. split; [nia | left; reflexivity].
Qed.

(** The fewer samples per chunk, the more chunks. *)
Lemma ceil_div_antitone n w1 w2 :
  1 <= w1 <= w2 -> 1 <= n -> ceil_div n w2 <= ceil_div n w1.
Proof.
  intros Hw Hn.
  pose proof (ceil_div_spec n w1 ltac:(lia)) as H1.
  pose proof (ceil_div_spec n w2 ltac:(lia)) as H2.
  pose proof (ceil_div_pos n w1 ltac:(lia) Hn) as Hk1.
  nia.
Qed.

(** X6 (a larger cap never costs more calls).  For [bsz >= 1],
    [n_samples >= 1] and two caps [c1 <= c2], the call with [c2] makes at
    most as many [metric_func] calls as the call with [c1]. *)
Theorem larger_cap_fewer_calls x rest n c1 c2 fuel (w0 : World) :
  1 <= tensor_size0 x ->
  1 <= n ->
  c1 <= c2 ->
  (Z.to_nat n <= fuel)%nat ->
  exists r1 st1 r2 st2,
    run (divide fuel (x :: rest) n (Some c1)) w0 = Returns r1 st1 /\
    run (divide fuel (x :: rest) n (Some c2)) w0 = Returns r2 st2 /\
    (count is_metric_call (log st2) <= count is_metric_call (log st1))%nat.
Proof.
  intros Hb Hn Hc Hfuel.
  rewrite !call_run by (auto; lia). cbv zeta.
  set (bsz := tensor_size0 x) in *.
  destruct (chunks (chunk_widths n (Z.min (Z.max (c1 / bsz) 1) n)) _ _)
    as [acc1 wd1].
  destruct (chunks (chunk_widths n (Z.min (Z.max (c2 / bsz) 1) n)) _ _)
    as [acc2 wd2].
  eexists _, _, _, _. split; [reflexivity|]. split; [reflexivity|].
  cbn [log]. rewrite !count_app, !count_metric_chunk_events.
  rewrite !count_warning_events by reflexivity. cbn [Nat.add].
  pose proof (Z.div_le_mono c1 c2 bsz ltac:(lia) Hc) as Hq.
  pose proof (chunk_widths_length n (Z.min (Z.max (c1 / bsz) 1) n)
                ltac:(lia) Hn) as H1.
  pose proof (chunk_widths_length n (Z.min (Z.max (c2 / bsz) 1) n)
                ltac:(lia) Hn) as H2.
  pose proof (ceil_div_antitone n (Z.min (Z.max (c1 / bsz) 1) n)
                (Z.min (Z.max (c2 / bsz) 1) n) ltac:(lia) Hn).
  lia.
Qed.

(** ** The last chunk *)

Lemma ceil_div_exact n w :
  1 <= w -> n mod w = 0 -> ceil_div n w = n / w.
Proof.
  intros Hw Hm. pose proof (Z.div_mod n w ltac:(lia)) as Hdm.
  apply ceil_div_unique; nia.
Qed.

Lemma ceil_div_inexact n w :
  1 <= w -> n mod w <> 0 -> ceil_div n w = n / w + 1.
Proof.
  intros Hw Hm. pose proof (Z.div_mod n w ltac:(lia)) as Hdm.
  pose proof (Z.mod_pos_bound n w ltac:(lia)) as Hb.
  apply ceil_div_unique; nia.
Qed.

(** X7 (the last chunk).  For [n_samples >= 1] and a resolved width [w] in
    [[1, n_samples]], the last call of [metric_func] is asked for
    [n_samples mod w] when [w] does not divide [n_samples] and for [w] when
    it does; in that case all [n_samples / w] calls are asked for [w]. *)
Theorem last_chunk_width x rest n cap w fuel (w0 : World) :
  1 <= n ->
  1 <= w <= n ->
  evaluates_to (World := World)
    (max_inps_per_batch (tensor_size0 x) n cap) w ->
  (Z.to_nat n <= fuel)%nat ->
  exists r st,
    run (divide fuel (x :: rest) n cap) w0 = Returns r st /\
    last (metric_widths (log st)) 0
    = (if n mod w =? 0 then w else n mod w) /\
    (n mod w = 0 -> metric_widths (log st) = repeat w (Z.to_nat (n / w))).
Proof.
  intros Hn Hw Hres Hfuel.
  rewrite (divide_run tensor_device tensor_size0 torch_zeros metric_func
             agg_func x rest n cap w fuel w0 Hres Hn)
    by (apply chunk_widths_fuel; lia).
  cbv zeta. destruct (chunks _ _ _) as [acc wd]. eexists _, _.
  split; [reflexivity|]. cbn [log].
  rewrite metric_widths_app, metric_widths_warning_events,
    metric_widths_chunk_events. cbn [app].
  pose proof (Z.div_mod n w ltac:(lia)) as Hdm.
  unfold chunk_widths. rewrite last_last.
  destruct (Z.eqb_spec (n mod w) 0) as [Hz|Hnz].
  - rewrite ceil_div_exact by lia. split; [nia|]. intros _.
    assert (Hq : 1 <= n / w) by nia.
    replace (n - (n / w - 1) * w) with w by nia.
    rewrite <- repeat_cons.
    replace (Z.to_nat (n / w)) with (S (Z.to_nat (n / w - 1))) by lia.
    reflexivity.
  - rewrite ceil_div_inexact by lia. split; [nia | contradiction].
Qed.

(** ** Non-positive [n_samples] and a cap *)

(** X8.  For [n_samples <= 0] and a present cap (with [bsz <> 0]) the call
    always warns, whatever the cap: its log is the warning alone, and it
    returns [torch.zeros(bsz)]. *)
Theorem nonpositive_n_samples_with_cap_warns x rest n c fuel (w0 : World) :
  n <= 0 ->
  tensor_size0 x <> 0 ->
  run (divide fuel (x :: rest) n (Some c)) w0
  = Returns (torch_zeros (tensor_size0 x) (tensor_device x))
      (mkState w0 [Warn c (tensor_size0 x)]).
Proof.
  intros Hn Hb.
  rewrite (divide_decompose tensor_device tensor_size0 torch_zeros
             metric_func agg_func x rest n (Some c) _ fuel w0
             (max_inps_per_batch_value (tensor_size0 x) n (Some c)
                (or_introl Hb))).
  unfold run. rewrite while_loop_exit by lia.
  cbn [prepend_log snd log world warning_events].
  destruct (Z.ltb_spec (c / tensor_size0 x) 1) as [|H1];
    destruct (Z.ltb_spec n (c / tensor_size0 x)); try lia; reflexivity.
Qed.

(** ** The loop invariant *)

Lemma sumZ_nonneg ws : Forall (fun w => 1 <= w) ws -> 0 <= sumZ ws.
Proof.
  induction 1 as [|w ws Hw _ IH]; [reflexivity|].
  change (sumZ (w :: ws)) with (w + sumZ ws). lia.
Qed.

(** A property kept by every chunk that stays within [n] is kept by a whole
    sequence of chunks that stays within [n]. *)
Lemma fold_chunks_invariant (P : Z -> Tensor -> World -> Prop) n :
  (forall c width acc s,
      0 <= c -> 1 <= width -> c + width <= n ->
      P c acc s ->
      P (c + width) (fst (step (acc, s) width)) (snd (step (acc, s) width))) ->
  forall ws c acc s,
    0 <= c ->
    Forall (fun w => 1 <= w) ws ->
    c + sumZ ws <= n ->
    P c acc s ->
    P (c + sumZ ws) (fst (chunks ws acc s)) (snd (chunks ws acc s)).
Proof.
  intros Hstep. unfold fold_chunks.
  induction ws as [|w ws IH]; intros c acc s Hc Hws Hsum HP.
  - simpl. rewrite Z.add_0_r. exact HP.
  - inversion Hws as [|? ? Hw Hws']; subst.
    pose proof (sumZ_nonneg ws Hws') as Hnn.
    change (sumZ (w :: ws)) with (w + sumZ ws) in *.
    cbn [fold_left].
    destruct (step (acc, s) w) as [acc1 s1] eqn:E.
    replace (c + (w + sumZ ws)) with (c + w + sumZ ws) by lia.
    apply IH; try lia; [exact Hws'|].
    specialize (Hstep c w acc s Hc Hw ltac:(lia) HP).
    rewrite E in Hstep. exact Hstep.
Qed.

(** X9 (loop invariant).  Let [P c acc s] relate the number [c] of samples
    handled so far, the accumulator and the callbacks' state.  If [P] holds
    of [0], [torch.zeros(bsz)] and the initial state, and every chunk of a
    width [>= 1] that stays within [n_samples] takes [P c] to
    [P (c + width)], then the call returns a value and a state that satisfy
    [P n_samples], whatever the cap. *)
Theorem loop_invariant (P : Z -> Tensor -> World -> Prop)
    x rest n cap fuel (w0 : World) :
  tensor_size0 x <> 0 \/ cap = None ->
  1 <= n ->
  (Z.to_nat n <= fuel)%nat ->
  P 0 (torch_zeros (tensor_size0 x) (tensor_device x)) w0 ->
  (forall c width acc s,
      0 <= c -> 1 <= width -> c + width <= n ->
      P c acc s ->
      P (c + width) (fst (step (acc, s) width)) (snd (step (acc, s) width))) ->
  exists r st,
    run (divide fuel (x :: rest) n cap) w0 = Returns r st /\
    P n r (world st).
Proof.
  intros Hdiv Hn Hfuel H0 Hstep.
  rewrite call_run by assumption. cbv zeta.
  pose proof (resolved_width_bounds (tensor_size0 x) n cap Hn) as Hb.
  set (w := width_of (tensor_size0 x) n cap) in *.
  pose proof (fold_chunks_invariant P n Hstep (chunk_widths n w) 0
                (torch_zeros (tensor_size0 x) (tensor_device x)) w0) as Hinv.
  rewrite chunk_widths_sum in Hinv by lia.
  destruct (chunks _ _ _) as [acc wd]. eexists _, _. split; [reflexivity|].
  cbn [world]. apply Hinv; try lia; [|exact H0].
  eapply Forall_impl; [|apply chunk_widths_bounds; lia].
  cbv beta. intros a Ha. lia.
Qed.

(** X10 (chunking does not change the result of an additive metric).
    Suppose the callbacks keep a position [pos s] in the samples, [total c]
    is the aggregate of the first [c] samples, and aggregating onto
    [total c] the metric of the next [width] samples gives
    [total (c + width)] and moves the position by [width].  Then the call
    returns [total n_samples] whatever the cap, with the position at
    [n_samples]. *)
Theorem additive_metric_cap_independent (total : Z -> Tensor)
    (pos : World -> Z) x rest n cap fuel (w0 : World) :
  tensor_size0 x <> 0 \/ cap = None ->
  1 <= n ->
  (Z.to_nat n <= fuel)%nat ->
  torch_zeros (tensor_size0 x) (tensor_device x) = total 0 ->
  pos w0 = 0 ->
  (forall c width s,
      0 <= c -> 1 <= width -> c + width <= n -> pos s = c ->
      fst (step (total c, s) width) = total (c + width) /\
      pos (snd (step (total c, s) width)) = c + width) ->
  exists st,
    run (divide fuel (x :: rest) n cap) w0 = Returns (total n) st /\
    pos (world st) = n.
Proof.
  intros Hdiv Hn Hfuel Hz Hp Hstep.
  rewrite call_run by assumption. cbv zeta.
  pose proof (resolved_width_bounds (tensor_size0 x) n cap Hn) as Hb.
  set (w := width_of (tensor_size0 x) n cap) in *.
  assert (Hstep' : forall c width acc s,
             0 <= c -> 1 <= width -> c + width <= n ->
             acc = total c /\ pos s = c ->
             fst (step (acc, s) width) = total (c + width) /\
             pos (snd (step (acc, s) width)) = c + width)
    by (intros c width acc s Hc Hw Hle [-> Hs]; apply Hstep; assumption).
  pose proof (fold_chunks_invariant
                (fun c acc s => acc = total c /\ pos s = c) n Hstep'
                (chunk_widths n w) 0
                (torch_zeros (tensor_size0 x) (tensor_device x)) w0) as Hinv.
  cbv beta in Hinv.
  rewrite chunk_widths_sum in Hinv by lia.
  destruct (chunks _ _ _) as [acc wd]. cbn [fst snd] in Hinv.
  destruct Hinv as [-> Hpos]; try lia.
  - eapply Forall_impl; [|apply chunk_widths_bounds; lia].
    cbv beta. intros a Ha. lia.
  - split; assumption.
  - eexists. split; [reflexivity | exact Hpos].
Qed.

End BatchingCoverage.

(** * Concrete runs for the further properties *)


(** [bsz = 2], [n_samples = 10], [cap = 7]: widths 3, 3, 3, 1, six examples
    at most per call. *)
Lemma cap_respected_witness :
  exists r st,
    run (Float64.divide_and_aggregate (Float64.constant_metric Runs.V2)
           Float64.torch_add 10 [Runs.x2] 10 (Some 7)) tt
    = Returns r st /\
    Forall (fun w_i => 1 <= w_i /\ w_i * Float64.size0 Runs.x2 <= 7)
      (metric_widths (log st)).
Proof.
  apply (cap_respected Float64.dev Float64.size0 Float64.zeros
           (Float64.constant_metric Runs.V2) Float64.torch_add
           Runs.x2 [] 10 7 10%nat tt);
    [vm_compute; discriminate | lia | vm_compute; discriminate | simpl; lia].
Defined.

(** [bsz = 2], [n_samples = 3], [cap = -4]. *)
Lemma cap_below_batch_size_witness :
  exists r st,
    run (Float64.divide_and_aggregate (Float64.constant_metric Runs.V2)
           Float64.torch_add 3 [Runs.x2] 3 (Some (-4))) tt
    = Returns r st /\
    log st
    = Warn (-4) (Float64.size0 Runs.x2) :: chunk_events (repeat 1 (Z.to_nat 3)).
Proof.
  apply (cap_below_batch_size Float64.dev Float64.size0 Float64.zeros
           (Float64.constant_metric Runs.V2) Float64.torch_add
           Runs.x2 [] 3 (-4) 3%nat tt);
    [vm_compute; discriminate | lia | vm_compute; reflexivity | simpl; lia].
Defined.

(** [bsz = 3], [n_samples = 4], [cap = 20 >= 12]. *)
Lemma cap_covering_all_is_single_call_witness :
  exists r st st',
    run (Float64.divide_and_aggregate (Float64.constant_metric Runs.V3)
           Float64.torch_add 4 [Runs.x3] 4 (Some 20)) tt
    = Returns r st /\
    run (Float64.divide_and_aggregate (Float64.constant_metric Runs.V3)
           Float64.torch_add 4 [Runs.x3] 4 None) tt
    = Returns r st' /\
    world st = world st' /\
    metric_widths (log st) = [4].
Proof.
  apply (cap_covering_all_is_single_call Float64.dev Float64.size0
           Float64.zeros (Float64.constant_metric Runs.V3) Float64.torch_add
           Runs.x3 [] 4 20 4%nat tt);
    [vm_compute; discriminate | lia | vm_compute; discriminate | simpl; lia].
Defined.

(** [bsz = 2], [n_samples = 10], [cap = 7]: width 3, and 4 would need 8. *)
Lemma chunk_width_fills_cap_witness :
  exists w,
    evaluates_to (World := unit) (max_inps_per_batch 2 10 (Some 7)) w /\
    w * 2 <= 7 /\
    (w = 10 \/ 7 < (w + 1) * 2).
Proof.
  apply (chunk_width_fills_cap (World := unit) 2 10 7); lia.
Defined.

(** [bsz = 2], [n_samples = 10], caps 5 and 7: five calls against four. *)
Lemma larger_cap_fewer_calls_witness :
  exists r1 st1 r2 st2,
    run (Float64.divide_and_aggregate (Float64.constant_metric Runs.V2)
           Float64.torch_add 10 [Runs.x2] 10 (Some 5)) tt
    = Returns r1 st1 /\
    run (Float64.divide_and_aggregate (Float64.constant_metric Runs.V2)
           Float64.torch_add 10 [Runs.x2] 10 (Some 7)) tt
    = Returns r2 st2 /\
    (count is_metric_call (log st2) <= count is_metric_call (log st1))%nat.
Proof.
  apply (larger_cap_fewer_calls Float64.dev Float64.size0 Float64.zeros
           (Float64.constant_metric Runs.V2) Float64.torch_add
           Runs.x2 [] 10 5 7 10%nat tt);
    [vm_compute; discriminate | lia | lia | simpl; lia].
Defined.

(** [bsz = 2], [n_samples = 10], [cap = 7]: width 3, last chunk [10 mod 3]. *)
Lemma last_chunk_width_witness :
  exists r st,
    run (Float64.divide_and_aggregate (Float64.constant_metric Runs.V2)
           Float64.torch_add 10 [Runs.x2] 10 (Some 7)) tt
    = Returns r st /\
    last (metric_widths (log st)) 0 = (if 10 mod 3 =? 0 then 3 else 10 mod 3) /\
    (10 mod 3 = 0 -> metric_widths (log st) = repeat 3 (Z.to_nat (10 / 3))).
Proof.
  apply (last_chunk_width Float64.dev Float64.size0 Float64.zeros
           (Float64.constant_metric Runs.V2) Float64.torch_add
           Runs.x2 [] 10 (Some 7) 3 10%nat tt);
    [lia | lia | intros s; reflexivity | simpl; lia].
Defined.

(** [bsz = 2], [n_samples = 0], [cap = 2]: a cap that is fine for any
    positive [n_samples] still warns. *)
Lemma nonpositive_n_samples_with_cap_warns_witness :
  run (Float64.divide_and_aggregate (Float64.constant_metric Runs.V2)
         Float64.torch_add 0 [Runs.x2] 0 (Some 2)) tt
  = Returns (Float64.zeros (Float64.size0 Runs.x2) (Float64.dev Runs.x2))
      (mkState tt [Warn 2 (Float64.size0 Runs.x2)]).
Proof.
  apply (nonpositive_n_samples_with_cap_warns Float64.dev Float64.size0
           Float64.zeros (Float64.constant_metric Runs.V2) Float64.torch_add
           Runs.x2 [] 0 2 0%nat tt);
    [lia | vm_compute; discriminate].
Defined.

(** Integer "tensors": the metric of a chunk is its width, the callbacks'
    state counts the samples handed out, and the aggregation is addition.
    The invariant: accumulator and state both equal the counter. *)
Lemma loop_invariant_witness :
  exists r st,
    run (_divide_and_aggregate_metrics (fun _ : Z => tt) (fun _ : Z => 1)
           (fun _ _ => 0) (fun w s => (w, s + w)) (fun a b s => (a + b, s))
           7 [0] 7 (Some 3)) 0
    = Returns r st /\
    (r = 7 /\ world st = 7).
Proof.
  apply (loop_invariant (fun _ : Z => tt) (fun _ : Z => 1) (fun _ _ => 0)
           (fun w s => (w, s + w)) (fun a b s => (a + b, s))
           (fun c acc s => acc = c /\ s = c) 0 [] 7 (Some 3) 7%nat 0);
    [ left; lia
    | lia
    | simpl; lia
    | split; reflexivity
    | intros c width acc s _ _ _ [-> ->]; split; reflexivity ].
Defined.

(** The same integer model: the call returns [n_samples = 7] under a cap
    of 3. *)
Lemma additive_metric_cap_independent_witness :
  exists st,
    run (_divide_and_aggregate_metrics (fun _ : Z => tt) (fun _ : Z => 1)
           (fun _ _ => 0) (fun w s => (w, s + w)) (fun a b s => (a + b, s))
           7 [0] 7 (Some 3)) 0
    = Returns 7 st /\
    world st = 7.
Proof.
  apply (additive_metric_cap_independent (fun _ : Z => tt) (fun _ : Z => 1)
           (fun _ _ => 0) (fun w s => (w, s + w)) (fun a b s => (a + b, s))
           (fun c => c) (fun s => s) 0 [] 7 (Some 3) 7%nat 0);
    [ left; lia
    | lia
    | simpl; lia
    | reflexivity
    | reflexivity
    | intros c width s _ _ _ ->; split; reflexivity ].
Defined.

(** A width of zero against [n_samples = 4]. *)
Lemma while_loop_spins_witness :
  while_loop (Float64.constant_metric Runs.V2) Float64.torch_add 50 4 0
    (0, Float64.zeros 2 Float64.cpu) (mkState tt [])
  = OutOfFuel.
Proof.
  apply (while_loop_spins (Float64.constant_metric Runs.V2) Float64.torch_add
           4 0); lia.
Defined.
